(** * The Readwise sync scheduler of the RemNote plugin

    A shallow embedding of [src/widgets/index.tsx]: the sync cycle
    [syncHighlights], the two commands that call it, and the startup
    policy at the end of [onActivate].

    The host (settings, synced storage, toasts, timers) and the two
    collaborators ([fetchFromExportApi], [importBooksAndHighlights]) are
    outside the file.  A cycle is a computation over a [World] that holds
    what the plugin can observe or change: the closure variable [timeout],
    the pending timers of the event loop, the value stored under
    [storage.lastSync], and the trace of calls made so far.  What the
    outside answers during one cycle is an [Env].

    One cycle is run from its first statement to its last without another
    cycle in between: the [await]s are sequencing points of the model. *)

From Stdlib Require Import ZArith List String Bool Lia.
Import ListNotations.
Local Open Scope Z_scope.

(** ** JavaScript values the code looks at *)

(** A number as the timer delay sees it: [getTime()] of an unparsable date
    is [NaN], and [NaN] poisons subtraction and fails every comparison.  All
    finite values here are millisecond counts far below 2^53, where double
    arithmetic is exact, so they are integers. *)
Inductive Num : Type :=
| Finite (z : Z)
| NaN.

Definition num_sub (a b : Num) : Num :=
  match a, b with
  | Finite x, Finite y => Finite (x - y)
  | _, _ => NaN
  end.

Definition num_ltb (a b : Num) : bool :=
  match a, b with
  | Finite x, Finite y => x <? y
  | _, _ => false
  end.

(** The string kept under [storage.lastSync].  [Date] parsing and
    [toISOString] are built-ins: a string is represented by the instant it
    parses to when it has one ([Iso ms], which is also what
    [new Date(ms).toISOString()] yields), and by its text otherwise. *)
Inductive DateString : Type :=
| Iso (ms : Z)
| Unparsed (text : string).

(** [new Date(ms).toISOString()] *)
Definition toISOString (ms : Z) : DateString := Iso ms.

(** [new Date(s).getTime()] *)
Definition getTime (s : DateString) : Num :=
  match s with
  | Iso ms => Finite ms
  | Unparsed _ => NaN
  end.

(** [new Date(s).getTime()] for [s : string | undefined] *)
Definition date_getTime (s : option DateString) : Num :=
  match s with
  | Some d => getTime d
  | None => NaN
  end.

(** [!s] for [s : string | undefined] *)
Definition falsy_string (s : option string) : bool :=
  match s with
  | None => true
  | Some EmptyString => true
  | Some (String _ _) => false
  end.

Definition falsy_date (s : option DateString) : bool :=
  match s with
  | None => true
  | Some (Unparsed EmptyString) => true
  | Some _ => false
  end.

(** The string behind a value already known to be one. *)
Definition string_of (s : option string) : string :=
  match s with
  | Some k => k
  | None => EmptyString
  end.

(** Truthiness of an optional boolean field. *)
Definition truthy (b : option bool) : bool :=
  match b with
  | Some true => true
  | _ => false
  end.

(** [opts: { ignoreLastSync?: boolean; notify?: boolean }] *)
Record Opts : Type := mkOpts {
  ignoreLastSync : option bool;
  notify : option bool
}.

(** What a rejected promise or a [throw] carries. *)
Inductive Exn : Type :=
| TypeError (msg : string)
| Rejection (msg : string).

Inductive Reply (A : Type) : Type :=
| Returns (a : A)
| Throws (e : Exn).
Arguments Returns {A} a.
Arguments Throws {A} e.

(** How a statement ends: normally with a value, or by a throw. *)
Inductive Completion (A : Type) : Type :=
| Normal (a : A)
| Thrown (e : Exn).
Arguments Normal {A} a.
Arguments Thrown {A} e.

(** A pending timer.  The callback is always [syncHighlights];
    [cb_args] is the argument the event loop will pass to it, [None] when
    [setTimeout] was given none. *)
Record Timer : Type := mkTimer {
  handle : nat;
  delay : Num;
  cb_args : option Opts
}.

(** The fixed interval, [1000 * 60 * 30]. *)
Definition interval : Z := 1000 * 60 * 30.

Definition msgNoKey : string :=
  "No Readwise API key set. Please follow the instructions in the plugin settings.".
Definition msgImporting : string := "Importing books and highlights...".
Definition msgFinished : string := "Finished importing books and highlights.".
Definition msgNothing : string := "No new books or highlights to import.".
Definition msgInvalidKey : string :=
  "Readwise API key is invalid. Please follow the instructions in the plugin settings.".
Definition msgFailedPrefix : string := "Failed to sync Readwise highlights: ".
Definition msgFailed : string := "Failed to sync Readwise highlights.".

Section Model.

(** The records of the export API are opaque to this file. *)
Context {Book : Type}.

(** [{ success: true, data } | { success: false, error }] *)
Inductive FetchResult : Type :=
| Success (data : option (list Book))
| Failure (error : string).

(** Calls that leave the plugin, in the order they are made. *)
Inductive Event : Type :=
| EGetSetting
| EGetSynced
| ESetSynced (v : DateString)
| EFetch (apiKey : string) (since : option DateString)
| EImport (books : list Book)
| ELog (msg : string)
| ELogExn (e : Exn)
| EToast (msg : string)
| EClearTimeout (h : option nat)
| ESetTimeout (h : nat) (d : Num)
| ERegisterSetting (title : string)
| ERegisterPowerup (name : string) (slots : list (string * bool))
| ERegisterCommand (id : string).

Record World : Type := mkWorld {
  timeout : option nat;            (* [let timeout: NodeJS.Timeout | undefined] *)
  timers : list Timer;             (* pending timers, oldest first *)
  next_handle : nat;
  lastSync : option DateString;    (* synced storage, key [storage.lastSync] *)
  trace : list Event               (* oldest first *)
}.

(** What the outside answers during one cycle. *)
Record Env : Type := mkEnv {
  getSetting : Reply (option string);
  getSynced_fault : option Exn;
  fetchExports : string -> option DateString -> Reply FetchResult;
  importBooks : list Book -> option Exn;
  setSynced_fault : option Exn;
  now : Z                          (* [new Date()] at the cursor write *)
}.

(** ** Computations: state that survives a throw *)

Definition M (A : Type) : Type := World -> Completion A * World.

Definition ret {A} (a : A) : M A := fun w => (Normal a, w).

Definition bind {A B} (m : M A) (k : A -> M B) : M B :=
  fun w =>
    match m w with
    | (Normal a, w1) => k a w1
    | (Thrown e, w1) => (Thrown e, w1)
    end.

Definition throw {A} (e : Exn) : M A := fun w => (Thrown e, w).

Notation "x <- m ;; k" := (bind m (fun x => k))
  (at level 61, m at next level, right associativity).
Notation "m ;; k" := (bind m (fun _ => k))
  (at level 61, right associativity).

(** [try { body } catch (e) { handler } finally { fin }].  The finaliser
    runs on every exit of the body; its own throw replaces the outcome. *)
Definition try_catch_finally (body : M unit) (handler : Exn -> M unit)
    (fin : M unit) : M unit :=
  fun w =>
    let '(r, w1) :=
      match body w with
      | (Normal a, w1) => (Normal a, w1)
      | (Thrown e, w1) => handler e w1
      end in
    match fin w1 with
    | (Normal _, w2) => (r, w2)
    | (Thrown e, w2) => (Thrown e, w2)
    end.

Definition of_reply {A} (r : Reply A) : M A :=
  match r with
  | Returns a => ret a
  | Throws e => throw e
  end.

Definition of_fault (f : option Exn) : M unit :=
  match f with
  | None => ret tt
  | Some e => throw e
  end.

Definition when (b : bool) (m : M unit) : M unit :=
  if b then m else ret tt.

(** ** The host and the collaborators *)

Definition emit (e : Event) : M unit :=
  fun w => (Normal tt,
            mkWorld (timeout w) (timers w) (next_handle w) (lastSync w)
                    (trace w ++ [e])).

Definition console_log (msg : string) : M unit := emit (ELog msg).
Definition console_log_exn (e : Exn) : M unit := emit (ELogExn e).
Definition toast (msg : string) : M unit := emit (EToast msg).

(** [plugin.settings.getSetting<string>(settings.apiKey)] *)
Definition plugin_getSetting (env : Env) : M (option string) :=
  emit EGetSetting ;; of_reply (getSetting env).

(** [plugin.storage.getSynced<string>(storage.lastSync)] *)
Definition plugin_getSynced (fault : option Exn) : M (option DateString) :=
  emit EGetSynced ;; of_fault fault ;; fun w => (Normal (lastSync w), w).

(** [plugin.storage.setSynced(storage.lastSync, v)] *)
Definition plugin_setSynced (fault : option Exn) (v : DateString) : M unit :=
  emit (ESetSynced v) ;; of_fault fault ;;
  fun w => (Normal tt,
            mkWorld (timeout w) (timers w) (next_handle w) (Some v) (trace w)).

Definition getReadwiseExportsSince (env : Env) (apiKey : string)
    (since : option DateString) : M FetchResult :=
  emit (EFetch apiKey since) ;; of_reply (fetchExports env apiKey since).

Definition importBooksAndHighlights (env : Env) (books : list Book) : M unit :=
  emit (EImport books) ;; of_fault (importBooks env books).

Definition cancel (h : option nat) (ts : list Timer) : list Timer :=
  match h with
  | None => ts
  | Some n => filter (fun t => negb (Nat.eqb (handle t) n)) ts
  end.

(** [clearTimeout(h)]; with [undefined] it does nothing. *)
Definition clearTimeout (h : option nat) : M unit :=
  emit (EClearTimeout h) ;;
  fun w => (Normal tt,
            mkWorld (timeout w) (cancel h (timers w)) (next_handle w)
                    (lastSync w) (trace w)).

(** [setTimeout(syncHighlights, d, ...args)]; returns the new handle. *)
Definition setTimeout (args : option Opts) (d : Num) : M nat :=
  fun w =>
    let h := next_handle w in
    (Normal h,
     mkWorld (timeout w) (timers w ++ [mkTimer h d args]) (S h)
             (lastSync w) (trace w ++ [ESetTimeout h d])).

Definition read_timeout : M (option nat) := fun w => (Normal (timeout w), w).

(** [let timeout] of line 67: declared, never assigned afterwards. *)
Definition declare_timeout : M unit :=
  fun w => (Normal tt,
            mkWorld None (timers w) (next_handle w) (lastSync w) (trace w)).

(** [opts.ignoreLastSync]: a property read, a [TypeError] on [undefined]. *)
Definition read_ignoreLastSync (opts : option Opts) : M (option bool) :=
  match opts with
  | Some o => ret (ignoreLastSync o)
  | None =>
      throw (TypeError "Cannot read properties of undefined (reading 'ignoreLastSync')")
  end.

(** [opts.notify], read only where [opts] is already known to be an object. *)
Definition opts_notify (opts : option Opts) : bool :=
  match opts with
  | Some o => truthy (notify o)
  | None => false
  end.

(** ** The sync cycle (lines 69-124) *)

Definition rearm : M unit :=
  h <- read_timeout ;;
  clearTimeout h ;;
  _ <- setTimeout None (Finite interval) ;;
  ret tt.

Definition on_result (env : Env) (opts : option Opts) (result : FetchResult)
    : M unit :=
  match result with
  | Success data =>
      match data with
      | Some ((_ :: _) as books) =>
          console_log msgImporting ;;
          when (opts_notify opts) (toast msgImporting) ;;
          importBooksAndHighlights env books ;;
          console_log msgFinished ;;
          when (opts_notify opts) (toast msgFinished)
      | _ =>
          console_log msgNothing ;;
          when (opts_notify opts) (toast msgNothing)
      end ;;
      plugin_setSynced (setSynced_fault env) (toISOString (now env))
  | Failure error =>
      if String.eqb error "auth" then
        console_log msgInvalidKey ;;
        toast msgInvalidKey
      else
        console_log error ;;
        toast (String.append msgFailedPrefix error)
  end.

(** The [try]/[catch]/[finally] statement of lines 80-123. *)
Definition try_block (env : Env) (opts : option Opts) (apiKey : string)
    (since : option DateString) : M unit :=
  try_catch_finally
    (result <- getReadwiseExportsSince env apiKey since ;;
     on_result env opts result)
    (fun e => console_log_exn e ;; toast msgFailed)
    rearm.

Definition syncHighlights (env : Env) (opts : option Opts) : M unit :=
  apiKey <- plugin_getSetting env ;;
  if falsy_string apiKey then
    console_log msgNoKey ;;
    toast msgNoKey
  else
    ignore <- read_ignoreLastSync opts ;;
    since <- (if truthy ignore then ret None
              else plugin_getSynced (getSynced_fault env)) ;;
    try_block env opts (string_of apiKey) since.

(** ** Commands (lines 126-144) *)

Definition optsSyncLatest : Opts := mkOpts None (Some true).
Definition optsSyncAll : Opts := mkOpts (Some true) (Some true).
Definition optsEmpty : Opts := mkOpts None None.

Definition syncLatestHighlights (env : Env) : M unit :=
  syncHighlights env (Some optsSyncLatest).

Definition syncAllHighlights (env : Env) : M unit :=
  syncHighlights env (Some optsSyncAll).

(** ** Activation (lines 8-66 and 146-152) *)

(** What the outside answers from line 146 on: the storage read, the two
    clock readings ([new Date()] in the test, [Date.now()] in the delay)
    and the answers for the cycle started at once, if one is. *)
Record ActEnv : Type := mkActEnv {
  act_getSynced_fault : option Exn;
  now_test : Z;
  now_delay : Z;
  act_cycle : Env
}.

(** What the outside answers during the whole of [onActivate]: the three
    registrations that are awaited (lines 9, 17 and 48) may each reject;
    then come the answers from line 146 on.  The two [registerCommand]
    calls are not awaited: a rejection of theirs is dropped. *)
Record Activation : Type := mkActivation {
  registerStringSetting_fault : option Exn;
  registerBook_fault : option Exn;
  registerHighlight_fault : option Exn;
  act_env : ActEnv
}.

(** The activation in which the three registrations answer. *)
Definition answered (a : ActEnv) : Activation :=
  mkActivation None None None a.

(** The first registration that rejects, if one does. *)
Definition registration_fault (A : Activation) : option Exn :=
  match registerStringSetting_fault A with
  | Some e => Some e
  | None =>
      match registerBook_fault A with
      | Some e => Some e
      | None => registerHighlight_fault A
      end
  end.

(** A call that is not awaited: the cycle it starts is run to its end here,
    and its rejection does not reach the caller. *)
Definition detached (m : M unit) : M unit :=
  fun w => (Normal tt, snd (m w)).

Definition register (A : Activation) : M unit :=
  emit (ERegisterSetting "Readwise API Key") ;;
  of_fault (registerStringSetting_fault A) ;;
  emit (ERegisterPowerup "Readwise Book"
          [("Book ID", true); ("Author", false); ("Image", false);
           ("Category", false); ("Tags", false)]%string) ;;
  of_fault (registerBook_fault A) ;;
  emit (ERegisterPowerup "Readwise Highlight"
          [("Highlight ID", true); ("Tags", false)]%string) ;;
  of_fault (registerHighlight_fault A) ;;
  declare_timeout ;;
  emit (ERegisterCommand "syncLatestHighlights") ;;
  emit (ERegisterCommand "syncAllHighlights").

(** The test of line 147. *)
Definition startup_due (a : ActEnv) (stored : option DateString) : bool :=
  falsy_date stored
  || num_ltb (date_getTime stored) (Finite (now_test a - interval)).

Definition startup (a : ActEnv) : M unit :=
  stored <- plugin_getSynced (act_getSynced_fault a) ;;
  if startup_due a stored then
    detached (syncHighlights (act_cycle a) (Some optsEmpty))
  else
    h <- read_timeout ;;
    clearTimeout h ;;
    _ <- setTimeout None
           (num_sub (Finite interval)
                    (num_sub (Finite (now_delay a)) (date_getTime stored))) ;;
    ret tt.

Definition onActivate (A : Activation) : M unit :=
  register A ;; startup (act_env A).

(** ** Runs of the plugin *)

Inductive Invocation : Type :=
| CmdSyncLatest
| CmdSyncAll
| TimerFires (h : nat).

Definition find_timer (h : nat) (ts : list Timer) : option Timer :=
  find (fun t => Nat.eqb (handle t) h) ts.

(** A pending timer that fires leaves the queue and calls the cycle with
    the arguments it was registered with. *)
Definition fire (env : Env) (h : nat) : M unit :=
  fun w =>
    match find_timer h (timers w) with
    | Some t =>
        syncHighlights env (cb_args t)
          (mkWorld (timeout w) (cancel (Some h) (timers w)) (next_handle w)
                   (lastSync w) (trace w))
    | None => (Normal tt, w)
    end.

Definition invoke (env : Env) (i : Invocation) : M unit :=
  match i with
  | CmdSyncLatest => syncLatestHighlights env
  | CmdSyncAll => syncAllHighlights env
  | TimerFires h => fire env h
  end.

Fixpoint run (steps : list (Env * Invocation)) (w : World) : World :=
  match steps with
  | [] => w
  | (env, i) :: rest => run rest (snd (invoke env i w))
  end.

Definition initial : World := mkWorld None [] 0%nat None [].

(** ** What a trace shows *)

Definition toasts (tr : list Event) : list string :=
  flat_map (fun e => match e with EToast m => [m] | _ => [] end) tr.

Definition fetch_calls (tr : list Event) : list (string * option DateString) :=
  flat_map (fun e => match e with EFetch k s => [(k, s)] | _ => [] end) tr.

Definition imports (tr : list Event) : list (list Book) :=
  flat_map (fun e => match e with EImport bs => [bs] | _ => [] end) tr.

Definition cursor_reads (tr : list Event) : list unit :=
  flat_map (fun e => match e with EGetSynced => [tt] | _ => [] end) tr.

Definition cursor_writes (tr : list Event) : list DateString :=
  flat_map (fun e => match e with ESetSynced v => [v] | _ => [] end) tr.

Definition scheduled (tr : list Event) : list Num :=
  flat_map (fun e => match e with ESetTimeout _ d => [d] | _ => [] end) tr.

(** [evs] are the calls one cycle adds to the trace. *)
Definition cycle_events (env : Env) (opts : option Opts) (w : World)
    (evs : list Event) : Prop :=
  trace (snd (syncHighlights env opts w)) = trace w ++ evs.

(** What activation has called when the startup policy decides. *)
Definition registration_events : list Event :=
  [ERegisterSetting "Readwise API Key";
   ERegisterPowerup "Readwise Book"
     [("Book ID", true); ("Author", false); ("Image", false);
      ("Category", false); ("Tags", false)]%string;
   ERegisterPowerup "Readwise Highlight"
     [("Highlight ID", true); ("Tags", false)]%string;
   ERegisterCommand "syncLatestHighlights";
   ERegisterCommand "syncAllHighlights";
   EGetSynced].

(** The world in which the startup policy decides. *)
Definition activated (w : World) : World :=
  mkWorld None (timers w) (next_handle w) (lastSync w)
          (trace w ++ registration_events).

(** The order of cursors by the instant they denote; an absent or
    unparsable cursor is below every other. *)
Definition cursor_le (a b : option DateString) : Prop :=
  match date_getTime a, date_getTime b with
  | NaN, _ => True
  | Finite x, Finite y => x <= y
  | Finite _, NaN => False
  end.

(** The cursor after each step of a run. *)
Fixpoint cursor_history (steps : list (Env * Invocation)) (w : World)
    : list (option DateString) :=
  match steps with
  | [] => []
  | (env, i) :: rest =>
      let w1 := snd (invoke env i w) in
      lastSync w1 :: cursor_history rest w1
  end.

Fixpoint nondecreasing (l : list (option DateString)) : Prop :=
  match l with
  | a :: (b :: _) as rest => cursor_le a b /\ nondecreasing rest
  | _ => True
  end.

(** The clock readings of a run never go back, starting from [t]. *)
Fixpoint clock_from (t : Z) (steps : list (Env * Invocation)) : Prop :=
  match steps with
  | [] => True
  | (env, _) :: rest => t <= now env /\ clock_from (now env) rest
  end.

(** ** Some outside worlds *)

(** A key is set and the export answers with [data]; nothing throws. *)
Definition env_success (key : string) (data : option (list Book)) (t : Z) : Env :=
  mkEnv (Returns (Some key)) None (fun _ _ => Returns (Success data))
        (fun _ => None) None t.

(** A key is set and the export rejects with [error]. *)
Definition env_failure (key : string) (error : string) (t : Z) : Env :=
  mkEnv (Returns (Some key)) None (fun _ _ => Returns (Failure error))
        (fun _ => None) None t.

(** The setting still holds its default, the empty string. *)
Definition env_no_key (t : Z) : Env :=
  mkEnv (Returns (Some EmptyString)) None
        (fun _ _ => Returns (Success None)) (fun _ => None) None t.

(** A fresh plugin whose storage already holds the cursor [t]. *)
Definition world_with_cursor (t : Z) : World :=
  mkWorld None [] 0%nat (Some (Iso t)) [].

(** Activation [elapsed] milliseconds after the cursor [t] was written. *)
Definition restart_after (t elapsed : Z) (cycle : Env) : ActEnv :=
  mkActEnv None (t + elapsed) (t + elapsed) cycle.

(** ** Deactivation and further observations *)

(** [onDeactivate] (line 155): an empty body; pending timers are left. *)
Definition onDeactivate : M unit := ret tt.

(** A trace with its toasts taken out. *)
Definition without_toasts (tr : list Event) : list Event :=
  filter (fun e => match e with EToast _ => false | _ => true end) tr.

(** Every timer of the queue was registered without callback argument. *)
Definition all_bare (ts : list Timer) : Prop :=
  forall tm, In tm ts -> cb_args tm = None.

(** The number of manual commands in a run. *)
Fixpoint commands (steps : list (Env * Invocation)) : nat :=
  match steps with
  | [] => 0
  | (_, TimerFires _) :: rest => commands rest
  | (_, _) :: rest => S (commands rest)
  end.

(** No step of the run fires the timer [h]. *)
Definition never_fires (h : nat) (steps : list (Env * Invocation)) : Prop :=
  forall env h', In (env, TimerFires h') steps -> h' <> h.

(** The cursor read at activation answers; the clock is read as [t1] in
    the test and as [t2] in the delay. *)
Definition activation_at (t1 t2 : Z) (cycle : Env) : ActEnv :=
  mkActEnv None t1 t2 cycle.

(** A fresh plugin whose storage holds [text], which is no date. *)
Definition world_with_text (text : string) : World :=
  mkWorld None [] 0%nat (Some (Unparsed text)) [].

End Model.

(** An [ActEnv] given where an [Activation] is expected stands for the
    activation whose three registrations answer: what is stated of
    [onActivate a] for [a : ActEnv] is about the runs that reach the
    cursor read of line 146. *)
Coercion answered : ActEnv >-> Activation.

(** * Properties *)

Section Properties.

Context {Book : Type}.
Implicit Types (env : @Env Book) (w : @World Book) (opts : option Opts)
  (o : Opts) (evs : list (@Event Book)).

(** ** Tactics for running a cycle symbolically *)

Ltac fields := cbn [timeout timers next_handle lastSync trace fst snd].

Ltac unfold_cycle :=
  cbv [syncHighlights syncLatestHighlights syncAllHighlights try_block
       on_result rearm plugin_getSetting plugin_getSynced plugin_setSynced
       getReadwiseExportsSince importBooksAndHighlights
       clearTimeout setTimeout read_timeout read_ignoreLastSync opts_notify
       console_log console_log_exn toast emit when of_reply of_fault
       try_catch_finally bind ret throw cycle_events];
  fields.

(** The same, leaving the [try] statement folded. *)
Ltac unfold_outer :=
  cbv [syncHighlights syncLatestHighlights syncAllHighlights
       plugin_getSetting plugin_getSynced read_ignoreLastSync
       console_log toast emit of_reply of_fault bind ret throw];
  fields.

Ltac simp := fields; cbn -[String.append String.eqb falsy_string cancel].

(** Names the fields of a world. *)
Ltac open_world w :=
  destruct w as [to ts nh ls tr];
  cbn [timeout timers next_handle lastSync trace] in *.

(** One case split on what the outside answers or on a flag. *)
Ltac break :=
  match goal with
  | |- context [match ?x with _ => _ end] => is_var x; destruct x
  | |- context [match getSetting ?e with _ => _ end] =>
      destruct (getSetting e) eqn:?
  | |- context [match getSynced_fault ?e with _ => _ end] =>
      destruct (getSynced_fault e) eqn:?
  | |- context [match fetchExports ?e ?k ?s with _ => _ end] =>
      destruct (fetchExports e k s) eqn:?
  | |- context [match importBooks ?e ?b with _ => _ end] =>
      destruct (importBooks e b) eqn:?
  | |- context [match setSynced_fault ?e with _ => _ end] =>
      destruct (setSynced_fault e) eqn:?
  | |- context [if falsy_string ?k then _ else _] =>
      destruct (falsy_string k) eqn:?
  | |- context [if truthy ?b then _ else _] =>
      destruct (truthy b) eqn:?
  | |- context [if String.eqb ?a ?b then _ else _] =>
      destruct (String.eqb a b) eqn:?
  end.

Ltac norm_app := repeat rewrite <- app_assoc; cbn [app].

(** Closes [exists evs, trace ... = trace w ++ evs /\ P evs] once the
    cycle has been run. *)
Ltac give_events :=
  norm_app; eexists; split; [reflexivity | simp].

Lemma gate_open (key : string) :
  key <> EmptyString -> falsy_string (Some key) = false.
Proof. destruct key; [congruence | reflexivity]. Qed.

Lemma not_auth (err : string) :
  err <> "auth"%string -> String.eqb err "auth" = false.
Proof. intro H. now apply String.eqb_neq. Qed.

(** ** The credential gate *)

Lemma gate_closed_cycle env opts w (k : option string) :
  getSetting env = Returns k ->
  falsy_string k = true ->
  syncHighlights env opts w =
    (Normal tt,
     mkWorld (timeout w) (timers w) (next_handle w) (lastSync w)
             (trace w ++ [EGetSetting; ELog msgNoKey; EToast msgNoKey])).
Proof.
  intros Hk Hf. open_world w. unfold_cycle. rewrite Hk. simp. rewrite Hf.
  simp. norm_app. reflexivity.
Qed.

(** Past the gate and the resolution of [since], the cycle is the [try]
    statement run on the world those two steps leave. *)
Lemma open_cycle env o w (key : string) :
  getSetting env = Returns (Some key) ->
  key <> EmptyString ->
  (truthy (ignoreLastSync o) = false -> getSynced_fault env = None) ->
  syncHighlights env (Some o) w =
    try_block env (Some o) key
      (if truthy (ignoreLastSync o) then None else lastSync w)
      (mkWorld (timeout w) (timers w) (next_handle w) (lastSync w)
         (trace w ++ EGetSetting ::
            (if truthy (ignoreLastSync o) then [] else [EGetSynced]))).
Proof.
  intros Hk Hne Hread. open_world w. unfold_outer.
  rewrite Hk. simp. rewrite (gate_open _ Hne).
  destruct (truthy (ignoreLastSync o)) eqn:Hi; simp.
  - reflexivity.
  - rewrite (Hread eq_refl). simp. norm_app. reflexivity.
Qed.

(** Once entered, the [try] statement always ends by scheduling one timer
    after [interval], whatever the fetch, the import and the storage do. *)
Lemma try_block_rearms env opts key since w :
  let w' := snd (try_block env opts key since w) in
  timers w' =
    cancel (timeout w) (timers w)
      ++ [mkTimer (next_handle w) (Finite interval) None]
  /\ next_handle w' = S (next_handle w)
  /\ timeout w' = timeout w.
Proof.
  open_world w. unfold_cycle.
  repeat (break; simp); auto.
Qed.

Lemma try_block_cursor env opts key since w :
  let w' := snd (try_block env opts key since w) in
  lastSync w' = lastSync w \/ lastSync w' = Some (Iso (now env)).
Proof.
  open_world w. unfold_cycle.
  repeat (break; simp); auto.
Qed.

(** The [try] statement calls the export once, first, and reads no cursor. *)
Lemma try_block_fetches_once env opts key since w :
  exists tl,
    trace (snd (try_block env opts key since w))
      = trace w ++ EFetch key since :: tl
    /\ fetch_calls tl = [] /\ cursor_reads tl = [].
Proof.
  open_world w. unfold_cycle.
  repeat (break; simp); norm_app; eexists; (split; [reflexivity | now simp]).
Qed.

(** The closure variable is never assigned by a cycle. *)
Lemma timeout_unassigned env opts w :
  timeout (snd (syncHighlights env opts w)) = timeout w.
Proof.
  open_world w. unfold_outer.
  repeat (break; simp); auto;
    match goal with
    | |- context [try_block ?e ?o ?k ?s ?x] =>
        destruct (try_block_rearms e o k s x) as (_ & _ & ->); reflexivity
    end.
Qed.

(** A cycle leaves the pending timers alone or adds the re-arm timer, which
    carries no argument for the callback. *)
Lemma cycle_timers env opts w :
  let w' := snd (syncHighlights env opts w) in
  timers w' = timers w
  \/ timers w' =
       cancel (timeout w) (timers w)
         ++ [mkTimer (next_handle w) (Finite interval) None].
Proof.
  open_world w. unfold_outer.
  repeat (break; simp); auto;
    match goal with
    | |- context [try_block ?e ?o ?k ?s ?x] =>
        destruct (try_block_rearms e o k s x) as (-> & _ & _); right;
        reflexivity
    end.
Qed.

(** A cycle leaves the cursor alone or sets it to its clock reading. *)
Lemma cycle_cursor env opts w :
  let w' := snd (syncHighlights env opts w) in
  lastSync w' = lastSync w \/ lastSync w' = Some (Iso (now env)).
Proof.
  open_world w. unfold_outer.
  repeat (break; simp); auto;
    match goal with
    | |- context [try_block ?e ?o ?k ?s ?x] =>
        exact (try_block_cursor e o k s x)
    end.
Qed.

(** Every cycle that gets past the gate with an options object and a
    resolved [since] re-arms: exactly one timer is added, after
    [interval]. *)
Lemma rearm_after_gate env o w (key : string) :
  getSetting env = Returns (Some key) ->
  key <> EmptyString ->
  (truthy (ignoreLastSync o) = false -> getSynced_fault env = None) ->
  timers (snd (syncHighlights env (Some o) w)) =
    cancel (timeout w) (timers w)
      ++ [mkTimer (next_handle w) (Finite interval) None].
Proof.
  intros Hk Hne Hread. rewrite (open_cycle _ _ _ _ Hk Hne Hread).
  match goal with
  | |- context [try_block ?e ?o ?k ?s ?x] =>
      destruct (try_block_rearms e o k s x) as (-> & _ & _)
  end.
  reflexivity.
Qed.

(** ** Re-arming *)

(** C1: the re-arm is not unconditional.  It sits in the [finally] of the
    [try] statement, and three exits come before that statement is
    entered: the return of the credential gate, a throw of the settings
    read, and a throw of the cursor read.  On each of them the cycle ends
    with the pending timers exactly as they were. *)
Theorem rearm_skipped_before_try :
  forall (gf sf : option Exn) (f : string -> option DateString -> Reply FetchResult)
         (i : list Book -> option Exn) (t : Z) w,
    (forall opts,
        timers (snd (syncHighlights
                       (mkEnv (Returns (Some EmptyString)) gf f i sf t) opts w))
        = timers w)
    /\ (forall opts e,
          syncHighlights (mkEnv (Throws e) gf f i sf t) opts w
          = (Thrown e,
             mkWorld (timeout w) (timers w) (next_handle w) (lastSync w)
                     (trace w ++ [EGetSetting])))
    /\ (forall e c k n,
          syncHighlights
            (mkEnv (Returns (Some (String c k))) (Some e) f i sf t)
            (Some (mkOpts None n)) w
          = (Thrown e,
             mkWorld (timeout w) (timers w) (next_handle w) (lastSync w)
                     (trace w ++ [EGetSetting; EGetSynced]))).
Proof.
  intros gf sf f i t w. split; [| split].
  - intros opts.
    now rewrite (gate_closed_cycle _ opts w (Some EmptyString)).
  - intros opts e. open_world w. unfold_outer. reflexivity.
  - intros e c k n. open_world w. unfold_outer. cbn. norm_app. reflexivity.
Qed.

(** C3: with the key unset or empty the cycle logs and toasts the "no API
    key" message and returns: no fetch, no cursor read or write, and also
    no new timer, since the return precedes the [try] statement. *)
Theorem credential_gate_cycle :
  forall (gf sf : option Exn) (f : string -> option DateString -> Reply FetchResult)
         (i : list Book -> option Exn) (t : Z) opts w,
    let gated :=
      (Normal tt,
       mkWorld (timeout w) (timers w) (next_handle w) (lastSync w)
               (trace w ++ [EGetSetting; ELog msgNoKey; EToast msgNoKey])) in
    syncHighlights (mkEnv (Returns None) gf f i sf t) opts w = gated
    /\ syncHighlights (mkEnv (Returns (Some EmptyString)) gf f i sf t) opts w
       = gated.
Proof.
  intros gf sf f i t opts w. cbv zeta.
  split.
  - now apply (gate_closed_cycle _ opts w None).
  - now apply (gate_closed_cycle _ opts w (Some EmptyString)).
Qed.

(** ** The single timer slot *)

Lemma sync_latest_adds_timer key data t w :
  key <> EmptyString ->
  timeout w = None ->
  let w' := snd (syncLatestHighlights (env_success key data t) w) in
  timers w' = timers w ++ [mkTimer (next_handle w) (Finite interval) None]
  /\ timeout w' = None.
Proof.
  intros Hne Hto. unfold syncLatestHighlights. cbv zeta. split.
  - rewrite (rearm_after_gate _ _ _ key); auto. now rewrite Hto.
  - now rewrite timeout_unassigned.
Qed.

Lemma manual_syncs_pile_up key data t n : forall w,
  key <> EmptyString ->
  timeout w = None ->
  List.length (timers
            (run (repeat (env_success key data t, CmdSyncLatest) n) w))
  = (List.length (timers w) + n)%nat.
Proof.
  induction n as [| n IH]; intros w Hne Hto; cbn [repeat run].
  - lia.
  - destruct (sync_latest_adds_timer key data t w Hne Hto) as [Ht Hto'].
    cbn [invoke]. rewrite IH by assumption.
    rewrite Ht, List.length_app. cbn. lia.
Qed.

(** C2: the slot is not single.  The handle that [setTimeout] returns is
    dropped, [timeout] stays [undefined], and [clearTimeout(timeout)]
    cancels nothing: [n] manual syncs in a row leave [n] timers pending. *)
Theorem pending_timers_after_manual_syncs :
  forall (data : option (list Book)) (t : Z) (n : nat),
    List.length (timers
              (run (repeat (env_success "key" data t, CmdSyncLatest) n)
                   initial))
    = n.
Proof.
  intros data t n.
  rewrite manual_syncs_pile_up; [reflexivity | discriminate | reflexivity].
Qed.

(** ** The cursor *)

Lemma cursor_le_refl (a : option DateString) : cursor_le a a.
Proof. unfold cursor_le. destruct (date_getTime a); [lia | exact I]. Qed.

Lemma cursor_le_iso (a : option DateString) (t u : Z) :
  cursor_le a (Some (Iso t)) -> t <= u -> cursor_le a (Some (Iso u)).
Proof.
  unfold cursor_le. cbn. destruct (date_getTime a); [lia | auto].
Qed.

Lemma invoke_cursor env (i : Invocation) w :
  let w' := snd (invoke env i w) in
  lastSync w' = lastSync w \/ lastSync w' = Some (Iso (now env)).
Proof.
  destruct i as [| | h]; cbn [invoke];
    try (unfold syncLatestHighlights, syncAllHighlights; apply cycle_cursor).
  unfold fire. destruct (find_timer h (timers w)) as [tm |]; [| now left].
  match goal with
  | |- context [syncHighlights ?e ?o ?x] => exact (cycle_cursor e o x)
  end.
Qed.

Lemma run_cursor_nondecreasing (steps : list (@Env Book * Invocation)) :
  forall w t0,
    cursor_le (lastSync w) (Some (Iso t0)) ->
    clock_from t0 steps ->
    nondecreasing (lastSync w :: cursor_history steps w).
Proof.
  induction steps as [| [env i] rest IH]; intros w t0 Hle Hclock.
  - exact I.
  - destruct Hclock as [Ht Hrest]. cbn [cursor_history].
    set (w1 := snd (invoke env i w)).
    assert (Hnow : cursor_le (lastSync w) (Some (Iso (now env))))
      by (eapply cursor_le_iso; eassumption).
    destruct (invoke_cursor env i w) as [Heq | Heq]; fold w1 in Heq.
    + split.
      * rewrite Heq. apply cursor_le_refl.
      * apply (IH w1 (now env)); [now rewrite Heq | assumption].
    + split.
      * now rewrite Heq.
      * apply (IH w1 (now env)); [rewrite Heq; apply cursor_le_refl
                                 | assumption].
Qed.

(** A cycle whose own export call, if it makes one, does not return
    success writes no cursor. *)
Lemma failed_call_keeps_cursor env opts w :
  exists evs,
    cycle_events env opts w evs
    /\ ((forall key since d,
            In (key, since) (fetch_calls evs) ->
            fetchExports env key since <> Returns (Success d)) ->
        lastSync (snd (syncHighlights env opts w)) = lastSync w
        /\ cursor_writes evs = []).
Proof.
  open_world w. unfold_cycle.
  repeat (break; simp); norm_app; eexists; (split; [reflexivity |]); simp;
    intros Hfail;
    first [ split; reflexivity
          | exfalso; eapply Hfail; [left; reflexivity | eassumption] ].
Qed.

(** C4 (as amended): a cycle whose export call does not return success
    (an auth failure, any other failure, or a throw) makes no cursor write
    and leaves the stored cursor as it was.  A successful cycle overwrites
    the cursor with its own clock reading, whatever is stored: along a run
    of manual and timer-fired cycles the cursor never decreases provided
    the clock readings do not go back and the cursor at the start is not
    ahead of the clock. *)
Theorem cursor_kept_on_failure_and_nondecreasing :
  (forall env opts w,
      exists evs,
        cycle_events env opts w evs
        /\ ((forall key since d,
                In (key, since) (fetch_calls evs) ->
                fetchExports env key since <> Returns (Success d)) ->
            lastSync (snd (syncHighlights env opts w)) = lastSync w
            /\ cursor_writes evs = []))
  /\ (forall (steps : list (@Env Book * Invocation)) w t0,
        cursor_le (lastSync w) (Some (Iso t0)) ->
        clock_from t0 steps ->
        nondecreasing (lastSync w :: cursor_history steps w)).
Proof.
  split.
  - exact failed_call_keeps_cursor.
  - intros steps. apply run_cursor_nondecreasing.
Qed.

(** ** The fetch window *)

(** C5: past the credential gate the export is called exactly once, with
    the stored cursor when [ignoreLastSync] is not set and a cursor is
    stored, and with [undefined] when the cursor is absent or
    [ignoreLastSync] is set; in the last case the cursor is not read. *)
Theorem fetch_window env o w (key : string) :
  getSetting env = Returns (Some key) ->
  key <> EmptyString ->
  (truthy (ignoreLastSync o) = false -> getSynced_fault env = None) ->
  exists evs,
    cycle_events env (Some o) w evs
    /\ (truthy (ignoreLastSync o) = false ->
        forall T0, lastSync w = Some T0 ->
                   fetch_calls evs = [(key, Some T0)])
    /\ (truthy (ignoreLastSync o) = false ->
        lastSync w = None -> fetch_calls evs = [(key, None)])
    /\ (truthy (ignoreLastSync o) = true ->
        fetch_calls evs = [(key, None)] /\ cursor_reads evs = []).
Proof.
  intros Hk Hne Hread. unfold cycle_events. open_world w.
  rewrite (open_cycle _ _ _ _ Hk Hne Hread).
  match goal with
  | |- context [try_block ?e ?o ?k ?s ?x] =>
      destruct (try_block_fetches_once e o k s x) as (tl & -> & Hf & Hr)
  end.
  simp. norm_app. eexists. split; [reflexivity |].
  unfold fetch_calls, cursor_reads in *.
  destruct (truthy (ignoreLastSync o)); simp; rewrite Hf, ?Hr;
    repeat split; intros; try discriminate; congruence.
Qed.

(** ** The success paths *)

(** C6: when the export returns success with an empty or missing list, the
    import is not called, "nothing to import" is toasted exactly when
    [notify] is set, and the cursor is written once, with the clock reading
    of this cycle; the stored cursor is that reading when the write does
    not throw. *)
Theorem empty_success_advances env o w (key : string)
    (data : option (list Book)) :
  getSetting env = Returns (Some key) ->
  key <> EmptyString ->
  (truthy (ignoreLastSync o) = false -> getSynced_fault env = None) ->
  fetchExports env key
    (if truthy (ignoreLastSync o) then None else lastSync w)
    = Returns (Success data) ->
  data = None \/ data = Some [] ->
  exists evs,
    cycle_events env (Some o) w evs
    /\ imports evs = []
    /\ (In msgNothing (toasts evs) <-> truthy (notify o) = true)
    /\ cursor_writes evs = [Iso (now env)]
    /\ (setSynced_fault env = None ->
        lastSync (snd (syncHighlights env (Some o) w))
        = Some (Iso (now env))).
Proof.
  intros Hk Hne Hread Hfetch Hdata. unfold cycle_events. open_world w.
  rewrite (open_cycle _ _ _ _ Hk Hne Hread).
  unfold_cycle. rewrite Hfetch. simp.
  destruct Hdata as [-> | ->]; simp;
    destruct (truthy (ignoreLastSync o)), (truthy (notify o)),
      (setSynced_fault env);
    simp; norm_app; eexists; (split; [reflexivity |]); simp;
    repeat split; auto; try discriminate;
    intros H; repeat (destruct H as [H | H]; try discriminate H);
    contradiction.
Qed.

(** C7: with [notify] set, a non-empty success and an import that
    completes, the cycle toasts "importing", calls the import with exactly
    the fetched list, toasts "finished" and then writes the cursor, in this
    order; the whole cycle is the trace below. *)
Theorem nonempty_success_order env o w (key : string) (b : Book)
    (bs : list Book) :
  getSetting env = Returns (Some key) ->
  key <> EmptyString ->
  (truthy (ignoreLastSync o) = false -> getSynced_fault env = None) ->
  truthy (notify o) = true ->
  fetchExports env key
    (if truthy (ignoreLastSync o) then None else lastSync w)
    = Returns (Success (Some (b :: bs))) ->
  importBooks env (b :: bs) = None ->
  cycle_events env (Some o) w
    ([EGetSetting]
       ++ (if truthy (ignoreLastSync o) then [] else [EGetSynced])
       ++ [EFetch key (if truthy (ignoreLastSync o) then None else lastSync w);
           ELog msgImporting; EToast msgImporting;
           EImport (b :: bs);
           ELog msgFinished; EToast msgFinished;
           ESetSynced (Iso (now env))]
       ++ match setSynced_fault env with
          | Some e => [ELogExn e; EToast msgFailed]
          | None => []
          end
       ++ [EClearTimeout (timeout w);
           ESetTimeout (next_handle w) (Finite interval)])
  /\ (setSynced_fault env = None ->
      lastSync (snd (syncHighlights env (Some o) w)) = Some (Iso (now env))).
Proof.
  intros Hk Hne Hread Hn Hfetch Himport. unfold cycle_events. open_world w.
  rewrite (open_cycle _ _ _ _ Hk Hne Hread).
  unfold_cycle. rewrite Hfetch. simp. rewrite Hn, Himport. simp.
  destruct (truthy (ignoreLastSync o)), (setSynced_fault env);
    simp; norm_app; split; auto; discriminate.
Qed.

(** ** Startup *)

Ltac unfold_activate :=
  cbv [onActivate register startup declare_timeout detached
       plugin_getSynced clearTimeout setTimeout read_timeout
       emit of_fault bind ret throw activated registration_events
       answered act_env registerStringSetting_fault registerBook_fault
       registerHighlight_fault];
  fields.

Lemma onActivate_fault (a : @ActEnv Book) w e :
  act_getSynced_fault a = Some e ->
  onActivate a w = (Thrown e, activated w).
Proof.
  intros Hf. open_world w. unfold_activate. rewrite Hf. simp.
  norm_app. reflexivity.
Qed.

Lemma onActivate_immediate (a : @ActEnv Book) w :
  act_getSynced_fault a = None ->
  startup_due a (lastSync w) = true ->
  onActivate a w =
    (Normal tt,
     snd (syncHighlights (act_cycle a) (Some optsEmpty) (activated w))).
Proof.
  intros Hf Hdue. open_world w. unfold_activate. rewrite Hf.
  cbv beta iota zeta. fields. rewrite Hdue. norm_app. reflexivity.
Qed.

Lemma onActivate_deferred (a : @ActEnv Book) w :
  act_getSynced_fault a = None ->
  startup_due a (lastSync w) = false ->
  let d := num_sub (Finite interval)
             (num_sub (Finite (now_delay a)) (date_getTime (lastSync w))) in
  onActivate a w =
    (Normal tt,
     mkWorld None (timers w ++ [mkTimer (next_handle w) d None])
             (S (next_handle w)) (lastSync w)
             (trace (activated w)
                ++ [EClearTimeout None; ESetTimeout (next_handle w) d])).
Proof.
  intros Hf Hdue. open_world w. unfold_activate. rewrite Hf.
  cbv beta iota zeta. fields. rewrite Hdue.
  cbv beta iota zeta. fields. norm_app. reflexivity.
Qed.

Lemma due_iso (a : @ActEnv Book) (t : Z) :
  startup_due a (Some (Iso t)) = (interval <? now_test a - t).
Proof.
  unfold startup_due. cbn -[interval].
  destruct (t <? now_test a - interval) eqn:H1;
    destruct (interval <? now_test a - t) eqn:H2; auto;
    rewrite ?Z.ltb_lt, ?Z.ltb_ge in *; lia.
Qed.

(** C8: at activation, an absent cursor or one older than the interval
    starts a cycle at once, with an empty options object; a cursor within
    the interval starts none and schedules the first cycle after exactly
    [interval - (now - cursorTime)], which is 20 minutes when the cursor is
    10 minutes old. *)
Theorem startup_policy (a : @ActEnv Book) w :
  act_getSynced_fault a = None ->
  (lastSync w = None ->
   onActivate a w =
     (Normal tt,
      snd (syncHighlights (act_cycle a) (Some (mkOpts None None))
             (activated w))))
  /\ (forall t, lastSync w = Some (Iso t) ->
                now_test a - t > interval ->
      onActivate a w =
        (Normal tt,
         snd (syncHighlights (act_cycle a) (Some (mkOpts None None))
                (activated w))))
  /\ (forall t, lastSync w = Some (Iso t) ->
                now_test a - t <= interval ->
      onActivate a w =
        (Normal tt,
         mkWorld None
           (timers w
              ++ [mkTimer (next_handle w)
                    (Finite (interval - (now_delay a - t))) None])
           (S (next_handle w)) (lastSync w)
           (trace (activated w)
              ++ [EClearTimeout None;
                  ESetTimeout (next_handle w)
                    (Finite (interval - (now_delay a - t)))])))
  /\ (forall t, lastSync w = Some (Iso t) ->
                now_test a = t + 10 * 60 * 1000 ->
                now_delay a = t + 10 * 60 * 1000 ->
      scheduled (trace (snd (onActivate a w)))
      = scheduled (trace w) ++ [Finite (20 * 60 * 1000)]).
Proof.
  intros Hf. repeat split.
  - intros Hnone. apply onActivate_immediate; [assumption |].
    now rewrite Hnone.
  - intros t Hsome Hold. apply onActivate_immediate; [assumption |].
    rewrite Hsome, due_iso. apply Z.ltb_lt. lia.
  - intros t Hsome Hrecent.
    rewrite onActivate_deferred; [now rewrite Hsome | assumption |].
    rewrite Hsome, due_iso. apply Z.ltb_ge. lia.
  - intros t Hsome H1 H2.
    rewrite onActivate_deferred; [| assumption |].
    + rewrite Hsome, H2. unfold scheduled, activated. fields.
      rewrite !flat_map_app. cbn -[Z.mul Z.sub Z.add interval].
      rewrite app_nil_r. do 3 f_equal. unfold interval. lia.
    + rewrite Hsome, due_iso, H1. apply Z.ltb_ge. unfold interval. lia.
Qed.

(** ** Toasts *)

Lemma eqb_auth_true (err : string) :
  String.eqb err "auth" = true -> err = "auth"%string.
Proof. apply String.eqb_eq. Qed.

Lemma eqb_auth_false (err : string) :
  String.eqb err "auth" = false -> err <> "auth"%string.
Proof. apply String.eqb_neq. Qed.

(** Settles a toast equation once the fetch answer is known. *)
Ltac settle :=
  repeat split; intros;
  repeat match goal with
    | H : Returns _ = Returns _ |- _ => injection H as H
    | H : Success _ = Success _ |- _ => injection H as H
    | H : Failure _ = Failure _ |- _ => injection H as H
    | H : String.eqb _ "auth" = true |- _ => apply eqb_auth_true in H
    | H : String.eqb _ "auth" = false |- _ => apply eqb_auth_false in H
    end;
  subst; try discriminate; try congruence; try reflexivity.

(** C9: the "no API key", "invalid key", specific-failure and
    caught-exception toasts do not look at [notify]; "importing",
    "finished" and "nothing to import" are toasted exactly when [notify] is
    set.  The toasts of a cycle are listed branch by branch. *)
Theorem failure_toasts_bypass_notify :
  (forall env opts w (k : option string),
      getSetting env = Returns k ->
      falsy_string k = true ->
      exists evs, cycle_events env opts w evs /\ toasts evs = [msgNoKey])
  /\ (forall env o w (key : string),
      getSetting env = Returns (Some key) ->
      key <> EmptyString ->
      (truthy (ignoreLastSync o) = false -> getSynced_fault env = None) ->
      let since := if truthy (ignoreLastSync o) then None else lastSync w in
      let said (ms : list string) :=
        if truthy (notify o) then ms else [] in
      let write_failed :=
        match setSynced_fault env with
        | Some _ => [msgFailed]
        | None => []
        end in
      exists evs,
        cycle_events env (Some o) w evs
        /\ (fetchExports env key since = Returns (Failure "auth") ->
            toasts evs = [msgInvalidKey])
        /\ (forall err,
               fetchExports env key since = Returns (Failure err) ->
               err <> "auth"%string ->
               toasts evs = [String.append msgFailedPrefix err])
        /\ (forall e,
               fetchExports env key since = Throws e ->
               toasts evs = [msgFailed])
        /\ (forall d,
               fetchExports env key since = Returns (Success d) ->
               d = None \/ d = Some [] ->
               toasts evs = said [msgNothing] ++ write_failed)
        /\ (forall b bs,
               fetchExports env key since
               = Returns (Success (Some (b :: bs))) ->
               importBooks env (b :: bs) = None ->
               toasts evs = said [msgImporting; msgFinished] ++ write_failed)
        /\ (forall b bs e,
               fetchExports env key since
               = Returns (Success (Some (b :: bs))) ->
               importBooks env (b :: bs) = Some e ->
               toasts evs = said [msgImporting] ++ [msgFailed])).
Proof.
  split.
  - intros env opts w k Hk Hf. unfold cycle_events.
    rewrite (gate_closed_cycle _ opts w k Hk Hf). fields.
    eexists. split; reflexivity.
  - intros env o w key Hk Hne Hread. cbv zeta. unfold cycle_events.
    open_world w. rewrite (open_cycle _ _ _ _ Hk Hne Hread).
    unfold_cycle.
    destruct (fetchExports env key (if truthy (ignoreLastSync o)
                                    then None else ls))
      as [[d | err] | e] eqn:Hfetch; simp;
      repeat (break; simp);
      norm_app; eexists; (split; [reflexivity |]); simp;
      settle;
      match goal with
      | H : _ \/ _ |- _ => destruct H; discriminate
      end.
Qed.

(** ** Timer-fired cycles *)

Lemma in_cancel (h : option nat) (ts : list Timer) (tm : Timer) :
  In tm (cancel h ts) -> In tm ts.
Proof.
  destruct h as [n |]; cbn; [| auto].
  intros H. now apply filter_In in H.
Qed.

Lemma cycle_adds_bare_timers env opts w (tm : Timer) :
  In tm (timers (snd (syncHighlights env opts w))) ->
  In tm (timers w) \/ cb_args tm = None.
Proof.
  destruct (cycle_timers env opts w) as [-> | ->]; [now left |].
  intros H. apply in_app_or in H. destruct H as [H | [<- | []]].
  - left. eapply in_cancel; eassumption.
  - right. reflexivity.
Qed.

Lemma activation_adds_bare_timers (a : @ActEnv Book) w (tm : Timer) :
  In tm (timers (snd (onActivate a w))) ->
  In tm (timers w) \/ cb_args tm = None.
Proof.
  destruct (act_getSynced_fault a) as [e |] eqn:Hf.
  - rewrite (onActivate_fault _ _ _ Hf). now left.
  - destruct (startup_due a (lastSync w)) eqn:Hdue.
    + rewrite (onActivate_immediate _ _ Hf Hdue). fields.
      intros H. apply cycle_adds_bare_timers in H. exact H.
    + rewrite (onActivate_deferred _ _ Hf Hdue). fields.
      intros H. apply in_app_or in H. destruct H as [H | [<- | []]];
        [now left | now right].
Qed.

Lemma bare_call_faults env w (key : string) :
  getSetting env = Returns (Some key) ->
  key <> EmptyString ->
  exists msg,
    syncHighlights env None w =
      (Thrown (TypeError msg),
       mkWorld (timeout w) (timers w) (next_handle w) (lastSync w)
               (trace w ++ [EGetSetting])).
Proof.
  intros Hk Hne. open_world w. unfold_outer. rewrite Hk. simp.
  rewrite (gate_open _ Hne). eexists. reflexivity.
Qed.

(** C10: every timer that a cycle or the activation adds carries no
    argument for the callback; and a cycle called without argument, the
    key being set, throws a [TypeError] at [opts.ignoreLastSync] right
    after the settings read: no fetch, no cursor access, no re-arm. *)
Theorem timer_fired_cycle_faults :
  (forall env opts w (tm : Timer),
      In tm (timers (snd (syncHighlights env opts w))) ->
      In tm (timers w) \/ cb_args tm = None)
  /\ (forall (a : @ActEnv Book) w (tm : Timer),
      In tm (timers (snd (onActivate a w))) ->
      In tm (timers w) \/ cb_args tm = None)
  /\ (forall env w (h : nat) (tm : Timer) (key : string),
      find_timer h (timers w) = Some tm ->
      cb_args tm = None ->
      getSetting env = Returns (Some key) ->
      key <> EmptyString ->
      exists msg,
        fire env h w =
          (Thrown (TypeError msg),
           mkWorld (timeout w) (cancel (Some h) (timers w)) (next_handle w)
                   (lastSync w) (trace w ++ [EGetSetting]))).
Proof.
  split; [exact cycle_adds_bare_timers |].
  split; [exact activation_adds_bare_timers |].
  intros env w h tm key Hfind Hargs Hk Hne.
  unfold fire. rewrite Hfind, Hargs.
  destruct (bare_call_faults env
              (mkWorld (timeout w) (cancel (Some h) (timers w))
                       (next_handle w) (lastSync w) (trace w))
              key Hk Hne) as [msg Hrun].
  exists msg. exact Hrun.
Qed.

(** * Further properties of the cycle *)

(** What one cycle may add to the trace, on every branch. *)
Lemma cycle_counts env opts w :
  exists evs,
    cycle_events env opts w evs
    /\ (exists tl, evs = EGetSetting :: tl)
    /\ (List.length (cursor_reads evs) <= 1)%nat
    /\ (List.length (fetch_calls evs) <= 1)%nat
    /\ (List.length (imports evs) <= 1)%nat
    /\ (List.length (cursor_writes evs) <= 1)%nat
    /\ (scheduled evs = [] \/ scheduled evs = [Finite interval]).
Proof.
  open_world w. unfold_cycle.
  repeat (break; simp); norm_app; eexists; (split; [reflexivity |]); simp;
    (split; [eexists; reflexivity |]); repeat split; auto.
Qed.

(** X2: on every branch a cycle starts with the settings read, reads the
    cursor, calls the export, calls the import and writes the cursor at
    most once each, and schedules either nothing or one timer after the
    interval. *)
Theorem cycle_calls_at_most_once env opts w :
  exists evs,
    cycle_events env opts w evs
    /\ (exists tl, evs = EGetSetting :: tl)
    /\ (List.length (cursor_reads evs) <= 1)%nat
    /\ (List.length (fetch_calls evs) <= 1)%nat
    /\ (List.length (imports evs) <= 1)%nat
    /\ (List.length (cursor_writes evs) <= 1)%nat
    /\ (scheduled evs = [] \/ scheduled evs = [Finite interval]).
Proof. apply cycle_counts. Qed.

(** X1: a cycle rejects in exactly three cases: the settings read throws;
    the key is set and the cycle was called without options; the key is
    set, [ignoreLastSync] is not, and the cursor read throws.  Whatever
    the export, the import and the cursor write do is caught. *)
Theorem cycle_rejects_exactly env opts w :
  (exists e, fst (syncHighlights env opts w) = Thrown e)
  <->
  ((exists e, getSetting env = Throws e)
   \/ (exists k, getSetting env = Returns k /\ falsy_string k = false
        /\ (opts = None
            \/ exists o e, opts = Some o
                 /\ truthy (ignoreLastSync o) = false
                 /\ getSynced_fault env = Some e))).
Proof.
  open_world w. unfold_cycle.
  repeat (break; simp);
    (split;
     [ intros [e' He']; try discriminate He'; eauto 12
     | intros [[e' He'] | (k' & Hk' & Hf' & [Ho' | (o' & e' & Ho' & Hi' & Hg')])];
       try discriminate; try congruence; eauto ]).
Qed.

(** Settles what a leaf of the case analysis says about the import. *)
Ltac same_books :=
  intros; try discriminate;
  match goal with
  | H : Some (_ :: _) = Some (_ :: _) |- _ =>
      injection H as -> ->; split; [assumption | reflexivity]
  end.

(** X3: the import is called with the list the export returned in this
    very cycle, and only when that list is not empty. *)
Theorem import_only_what_was_fetched env opts w :
  exists evs,
    cycle_events env opts w evs
    /\ (imports evs = []
        \/ exists key since b bs,
             fetch_calls evs = [(key, since)]
             /\ fetchExports env key since
                = Returns (Success (Some (b :: bs)))
             /\ imports evs = [b :: bs]).
Proof.
  open_world w. unfold_cycle.
  repeat (break; simp); norm_app; eexists; (split; [reflexivity |]); simp;
    first [ left; reflexivity
          | right; do 4 eexists;
            split; [reflexivity | split; [eassumption | reflexivity]] ].
Qed.

(** X4: the cursor is written only with this cycle's clock reading, and
    only after the export returned success and the import, if there was
    one, completed; the stored value changes exactly when that write does
    not throw. *)
Theorem cursor_written_only_after_import env opts w :
  exists evs,
    cycle_events env opts w evs
    /\ ((cursor_writes evs = []
         /\ lastSync (snd (syncHighlights env opts w)) = lastSync w)
        \/ (cursor_writes evs = [Iso (now env)]
            /\ (exists key since d,
                   fetch_calls evs = [(key, since)]
                   /\ fetchExports env key since = Returns (Success d)
                   /\ (forall b bs, d = Some (b :: bs) ->
                         importBooks env (b :: bs) = None
                         /\ imports evs = [b :: bs]))
            /\ (setSynced_fault env = None ->
                lastSync (snd (syncHighlights env opts w))
                = Some (Iso (now env)))
            /\ (forall e, setSynced_fault env = Some e ->
                lastSync (snd (syncHighlights env opts w)) = lastSync w))).
Proof.
  open_world w. unfold_cycle.
  repeat (break; simp); norm_app; eexists; (split; [reflexivity |]); simp;
    first [ left; split; reflexivity
          | right; split; [reflexivity |];
            split;
            [ do 3 eexists;
              split; [reflexivity | split; [eassumption | same_books]]
            | split; intros; solve [reflexivity | discriminate] ] ].
Qed.

(** ** Timers that fire *)

(** A cycle called without options stops before the [try] statement: it
    reads the setting and at most logs and toasts. *)
Lemma bare_cycle_inert env w :
  exists c evs,
    syncHighlights env None w =
      (c, mkWorld (timeout w) (timers w) (next_handle w) (lastSync w)
                  (trace w ++ evs))
    /\ fetch_calls evs = [] /\ imports evs = [] /\ cursor_reads evs = []
    /\ cursor_writes evs = [] /\ scheduled evs = [].
Proof.
  open_world w. unfold_outer.
  repeat (break; simp); norm_app; do 2 eexists;
    (split; [reflexivity | now simp]).
Qed.

(** X5: a timer registered without callback argument, when it fires,
    leaves the queue and does nothing else than read the setting and log or
    toast: no export call, no import, no cursor access, no new timer,
    whatever the outside answers. *)
Theorem fired_timer_is_inert env w (h : nat) (tm : Timer) :
  find_timer h (timers w) = Some tm ->
  cb_args tm = None ->
  exists c evs,
    fire env h w =
      (c, mkWorld (timeout w) (cancel (Some h) (timers w)) (next_handle w)
                  (lastSync w) (trace w ++ evs))
    /\ fetch_calls evs = [] /\ imports evs = [] /\ cursor_reads evs = []
    /\ cursor_writes evs = [] /\ scheduled evs = [].
Proof.
  intros Hfind Hargs. unfold fire. rewrite Hfind, Hargs.
  apply (bare_cycle_inert env
           (mkWorld (timeout w) (cancel (Some h) (timers w)) (next_handle w)
                    (lastSync w) (trace w))).
Qed.

(** ** Runs *)

Lemma find_timer_in (h : nat) (ts : list Timer) (tm : Timer) :
  find_timer h ts = Some tm -> In tm ts.
Proof. intros H. now apply find_some in H. Qed.

Lemma cancel_bare (h : option nat) (ts : list Timer) :
  all_bare ts -> all_bare (cancel h ts).
Proof. intros Hb tm Hin. apply Hb. eapply in_cancel; eassumption. Qed.

Lemma invoke_bare env (i : Invocation) w :
  all_bare (timers w) -> all_bare (timers (snd (invoke env i w))).
Proof.
  intros Hb tm Hin.
  destruct i as [| | h]; cbn [invoke] in Hin.
  - destruct (cycle_adds_bare_timers _ _ _ _ Hin); auto.
  - destruct (cycle_adds_bare_timers _ _ _ _ Hin); auto.
  - unfold fire in Hin.
    destruct (find_timer h (timers w)) as [t0 |]; [| auto].
    destruct (cycle_adds_bare_timers _ _ _ _ Hin) as [Hold | Hnew]; auto.
    cbn [timers] in Hold. eapply cancel_bare; eassumption.
Qed.

(** What one step of a run adds to the calls made so far. *)
Lemma invoke_calls env (i : Invocation) w :
  all_bare (timers w) ->
  let w' := snd (invoke env i w) in
  let n := match i with TimerFires _ => 0%nat | _ => 1%nat end in
  (List.length (fetch_calls (trace w'))
   <= List.length (fetch_calls (trace w)) + n)%nat
  /\ (List.length (imports (trace w'))
      <= List.length (imports (trace w)) + n)%nat
  /\ (List.length (cursor_writes (trace w'))
      <= List.length (cursor_writes (trace w)) + n)%nat.
Proof.
  intros Hb. cbv zeta.
  destruct i as [| | h]; cbn [invoke].
  - unfold syncLatestHighlights.
    destruct (cycle_counts env (Some optsSyncLatest) w)
      as (evs & Hev & _ & _ & Hf & Hi & Hw & _).
    unfold cycle_events in Hev. rewrite Hev.
    unfold fetch_calls, imports, cursor_writes in *.
    rewrite !flat_map_app, !List.length_app. lia.
  - unfold syncAllHighlights.
    destruct (cycle_counts env (Some optsSyncAll) w)
      as (evs & Hev & _ & _ & Hf & Hi & Hw & _).
    unfold cycle_events in Hev. rewrite Hev.
    unfold fetch_calls, imports, cursor_writes in *.
    rewrite !flat_map_app, !List.length_app. lia.
  - unfold fire. destruct (find_timer h (timers w)) as [t0 |] eqn:Hfind.
    + rewrite (Hb t0 (find_timer_in _ _ _ Hfind)).
      match goal with
      | |- context [syncHighlights env None ?x] =>
          destruct (bare_cycle_inert env x)
            as (c & evs & -> & Hf & Hi & _ & Hw & _)
      end.
      fields. unfold fetch_calls, imports, cursor_writes in *.
      rewrite !flat_map_app, !List.length_app, Hf, Hi, Hw. cbn. lia.
    + fields. lia.
Qed.

(** X6: in a run that starts with only argument-less timers pending (as
    every timer this code registers is), the export is called, the import
    is called and the cursor is written at most once per manual command:
    timers that fire add none of these. *)
Theorem background_cycles_never_sync (steps : list (@Env Book * Invocation)) :
  forall w,
    all_bare (timers w) ->
    (List.length (fetch_calls (trace (run steps w)))
     <= List.length (fetch_calls (trace w)) + commands steps)%nat
    /\ (List.length (imports (trace (run steps w)))
        <= List.length (imports (trace w)) + commands steps)%nat
    /\ (List.length (cursor_writes (trace (run steps w)))
        <= List.length (cursor_writes (trace w)) + commands steps)%nat.
Proof.
  induction steps as [| [env i] rest IH]; intros w Hb.
  - cbn. lia.
  - cbn [run].
    destruct (IH (snd (invoke env i w)) (invoke_bare env i w Hb))
      as (Hf & Hi & Hw).
    destruct (invoke_calls env i w Hb) as (Hf1 & Hi1 & Hw1).
    destruct i; cbn [commands]; lia.
Qed.

Lemma invoke_timeout env (i : Invocation) w :
  timeout (snd (invoke env i w)) = timeout w.
Proof.
  destruct i as [| | h]; cbn [invoke];
    try (unfold syncLatestHighlights, syncAllHighlights;
         apply timeout_unassigned).
  unfold fire. destruct (find_timer h (timers w)); [| reflexivity].
  now rewrite timeout_unassigned.
Qed.

Lemma cycle_keeps_timers env opts w (tm : Timer) :
  timeout w = None ->
  In tm (timers w) ->
  In tm (timers (snd (syncHighlights env opts w))).
Proof.
  intros Hto Hin.
  destruct (cycle_timers env opts w) as [-> | ->]; [assumption |].
  rewrite Hto. cbn [cancel]. apply in_or_app. now left.
Qed.

Lemma invoke_keeps_timer env (i : Invocation) w (tm : Timer) :
  timeout w = None ->
  In tm (timers w) ->
  i <> TimerFires (handle tm) ->
  In tm (timers (snd (invoke env i w))).
Proof.
  intros Hto Hin Hne.
  destruct i as [| | h]; cbn [invoke];
    try (unfold syncLatestHighlights, syncAllHighlights;
         now apply cycle_keeps_timers).
  unfold fire. destruct (find_timer h (timers w)); [| assumption].
  apply cycle_keeps_timers; [assumption |].
  cbn [timers cancel]. apply filter_In. split; [assumption |].
  apply Bool.negb_true_iff, Nat.eqb_neq. congruence.
Qed.

(** X7: with [timeout] undefined, as activation leaves it and every cycle
    keeps it, no cycle removes a pending timer: a timer stays in the queue
    through any run in which it does not itself fire. *)
Theorem timers_leave_only_by_firing (steps : list (@Env Book * Invocation)) :
  forall w (tm : Timer),
    timeout w = None ->
    In tm (timers w) ->
    never_fires (handle tm) steps ->
    In tm (timers (run steps w)) /\ timeout (run steps w) = None.
Proof.
  induction steps as [| [env i] rest IH]; intros w tm Hto Hin Hnf.
  - now split.
  - cbn [run]. apply IH.
    + now rewrite invoke_timeout.
    + apply invoke_keeps_timer; [assumption | assumption |].
      intros ->. apply (Hnf env (handle tm)); [now left | reflexivity].
    + intros env' h' Hin'. apply (Hnf env' h'). now right.
Qed.

(** ** Activation, further *)

(** X8: at activation an empty stored string counts as no cursor and a
    cycle starts at once; a non-empty stored string that is no date starts
    no cycle and schedules the first one with the delay [NaN]. *)
Theorem startup_with_text_cursor (a : @ActEnv Book) w :
  act_getSynced_fault a = None ->
  (lastSync w = Some (Unparsed EmptyString) ->
   onActivate a w =
     (Normal tt,
      snd (syncHighlights (act_cycle a) (Some (mkOpts None None))
             (activated w))))
  /\ (forall c text, lastSync w = Some (Unparsed (String c text)) ->
      onActivate a w =
        (Normal tt,
         mkWorld None
           (timers w ++ [mkTimer (next_handle w) NaN None])
           (S (next_handle w)) (lastSync w)
           (trace (activated w)
              ++ [EClearTimeout None; ESetTimeout (next_handle w) NaN]))).
Proof.
  intros Hf. split.
  - intros Hempty. apply onActivate_immediate; [assumption |].
    now rewrite Hempty.
  - intros c text Htext.
    rewrite onActivate_deferred; [now rewrite Htext | assumption |].
    now rewrite Htext.
Qed.

(** X9: when activation defers the first cycle, the delay is at most the
    interval exactly when the cursor is not ahead of the clock, and it is
    not negative exactly when the cursor is still within the interval at
    the second clock reading. *)
Theorem startup_delay_bounds (a : @ActEnv Book) w (t : Z) :
  act_getSynced_fault a = None ->
  lastSync w = Some (Iso t) ->
  now_test a - t <= interval ->
  exists z,
    timers (snd (onActivate a w))
    = timers w ++ [mkTimer (next_handle w) (Finite z) None]
    /\ (z <= interval <-> t <= now_delay a)
    /\ (0 <= z <-> now_delay a - t <= interval).
Proof.
  intros Hf Hsome Hrecent.
  exists (interval - (now_delay a - t)).
  rewrite onActivate_deferred; [| assumption |].
  - rewrite Hsome. fields. cbn [date_getTime getTime num_sub].
    repeat split; lia.
  - rewrite Hsome, due_iso. apply Z.ltb_ge. lia.
Qed.

(** Activation once its registrations have answered. *)
Lemma answered_outcome (a : @ActEnv Book) w :
  ((exists e, fst (onActivate a w) = Thrown e)
   <-> (exists e, act_getSynced_fault a = Some e))
  /\ (exists tl,
         trace (snd (onActivate a w))
         = trace w ++ registration_events ++ tl)
  /\ timeout (snd (onActivate a w)) = None.
Proof.
  destruct (act_getSynced_fault a) as [e |] eqn:Hf.
  - rewrite (onActivate_fault _ _ _ Hf). fields.
    repeat split; eauto.
    exists []. unfold activated. fields. now rewrite app_nil_r.
  - destruct (startup_due a (lastSync w)) eqn:Hdue.
    + rewrite (onActivate_immediate _ _ Hf Hdue). fields.
      split; [split; intros [e He]; discriminate He |].
      split.
      * destruct (cycle_counts (act_cycle a) (Some optsEmpty) (activated w))
          as (evs & Hev & _).
        unfold cycle_events in Hev. rewrite Hev.
        exists evs. unfold activated. fields. now rewrite app_assoc.
      * now rewrite timeout_unassigned.
    + rewrite (onActivate_deferred _ _ Hf Hdue). fields.
      split; [split; intros [e He]; discriminate He |].
      split; [| reflexivity].
      eexists. unfold activated. fields. rewrite <- app_assoc. reflexivity.
Qed.

(** Settles the activation in which a registration rejects with [e], after
    [n] registration calls. *)
Ltac rejected_registration e n :=
  split;
  [ split; [intros _; left; exists e; reflexivity | intros _; eauto]
  | split;
    [ intros e' He'; injection He' as <-; exists n;
      split; [lia | norm_app; reflexivity]
    | discriminate ] ].

(** X10: activation rejects exactly when one of its three awaited
    registrations or its cursor read rejects; a rejection of the cycle it
    starts does not reach it.  When a registration rejects nothing after it
    runs: no later registration, no cursor read, no cycle, no timer.  When
    the registrations answer, the five registrations and the cursor read
    come first, in this order, and [timeout] is left undefined. *)
Theorem activation_outcome (A : @Activation Book) w :
  ((exists e, fst (onActivate A w) = Thrown e)
   <-> ((exists e, registration_fault A = Some e)
        \/ (exists e, act_getSynced_fault (act_env A) = Some e)))
  /\ (forall e, registration_fault A = Some e ->
      exists n,
        (1 <= n <= 3)%nat
        /\ onActivate A w =
             (Thrown e,
              mkWorld (timeout w) (timers w) (next_handle w) (lastSync w)
                      (trace w ++ firstn n registration_events)))
  /\ (registration_fault A = None ->
      (exists tl,
          trace (snd (onActivate A w))
          = trace w ++ registration_events ++ tl)
      /\ timeout (snd (onActivate A w)) = None).
Proof.
  destruct A as [[e1 |] [e2 |] [e3 |] a]; unfold registration_fault;
    cbn [registerStringSetting_fault registerBook_fault
         registerHighlight_fault act_env];
    try (open_world w; unfold_activate;
         first [ rejected_registration e1 1%nat
               | rejected_registration e2 2%nat
               | rejected_registration e3 3%nat ]).
  change (mkActivation None None None a) with (answered a).
  destruct (answered_outcome a w) as (Hrej & Hpre & Hto).
  split; [| split].
  - rewrite Hrej. split; [intros H; now right |].
    intros [[e He] | H]; [discriminate He | exact H].
  - discriminate.
  - intros _. split; assumption.
Qed.

(** X11: the first activation of a configured plugin (no cursor stored, a
    key set, the export answering with success, nothing throwing) fetches
    the full history, imports what came, sets the cursor to the clock
    reading, shows no toast, and leaves one timer pending after the
    interval. *)
Theorem first_activation_syncs (a : @ActEnv Book) w (key : string)
    (d : option (list Book)) :
  act_getSynced_fault a = None ->
  lastSync w = None ->
  getSetting (act_cycle a) = Returns (Some key) ->
  key <> EmptyString ->
  getSynced_fault (act_cycle a) = None ->
  fetchExports (act_cycle a) key None = Returns (Success d) ->
  (forall b bs, d = Some (b :: bs) ->
                importBooks (act_cycle a) (b :: bs) = None) ->
  setSynced_fault (act_cycle a) = None ->
  fst (onActivate a w) = Normal tt
  /\ lastSync (snd (onActivate a w)) = Some (Iso (now (act_cycle a)))
  /\ timers (snd (onActivate a w))
     = timers w ++ [mkTimer (next_handle w) (Finite interval) None]
  /\ toasts (trace (snd (onActivate a w))) = toasts (trace w)
  /\ fetch_calls (trace (snd (onActivate a w)))
     = fetch_calls (trace w) ++ [(key, None)]
  /\ imports (trace (snd (onActivate a w)))
     = imports (trace w)
         ++ match d with
            | Some (b :: bs) => [b :: bs]
            | _ => []
            end.
Proof.
  intros Hf Hnone Hk Hne Hread Hfetch Himport Hwrite.
  rewrite (onActivate_immediate _ _ Hf); [| now rewrite Hnone].
  open_world w. subst ls. unfold activated. fields.
  rewrite (open_cycle _ optsEmpty _ key Hk Hne (fun _ => Hread)).
  unfold_cycle. simp. rewrite Hfetch. simp.
  unfold toasts, fetch_calls, imports.
  destruct d as [[| b bs] |]; simp;
    try rewrite (Himport b bs eq_refl); simp;
    rewrite Hwrite; simp;
    rewrite !flat_map_app; simp;
    rewrite ?app_nil_r; repeat split; reflexivity.
Qed.

(** The [try] statement looks at its options only to decide on toasts. *)
Lemma try_block_notify env opts1 opts2 key since w :
  fst (try_block env opts1 key since w) = fst (try_block env opts2 key since w)
  /\ timers (snd (try_block env opts1 key since w))
     = timers (snd (try_block env opts2 key since w))
  /\ lastSync (snd (try_block env opts1 key since w))
     = lastSync (snd (try_block env opts2 key since w))
  /\ without_toasts (trace (snd (try_block env opts1 key since w)))
     = without_toasts (trace (snd (try_block env opts2 key since w))).
Proof.
  open_world w. unfold_cycle. unfold without_toasts.
  repeat (break; simp); norm_app; rewrite ?filter_app; simp;
    repeat split; reflexivity.
Qed.

(** X12: [notify] changes nothing but the toasts: two cycles that differ
    only in it end the same way, with the same timers, the same stored
    cursor and, toasts apart, the same trace. *)
Theorem notify_only_changes_toasts env o1 o2 w :
  ignoreLastSync o1 = ignoreLastSync o2 ->
  fst (syncHighlights env (Some o1) w) = fst (syncHighlights env (Some o2) w)
  /\ timers (snd (syncHighlights env (Some o1) w))
     = timers (snd (syncHighlights env (Some o2) w))
  /\ lastSync (snd (syncHighlights env (Some o1) w))
     = lastSync (snd (syncHighlights env (Some o2) w))
  /\ without_toasts (trace (snd (syncHighlights env (Some o1) w)))
     = without_toasts (trace (snd (syncHighlights env (Some o2) w))).
Proof.
  destruct o1 as [i1 n1], o2 as [i2 n2]. cbn [ignoreLastSync].
  intros <-. open_world w. unfold_outer. cbn [ignoreLastSync].
  repeat (break; simp);
    solve [ repeat split; reflexivity | apply try_block_notify ].
Qed.

(** The [try] statement never lets a throw out. *)
Lemma try_block_completes env opts key since w :
  fst (try_block env opts key since w) = Normal tt.
Proof.
  open_world w. unfold_cycle.
  repeat (break; simp); reflexivity.
Qed.

(** X13: a cycle that gets past the credential gate with an options
    object and a cursor read that answers always completes and re-arms:
    whatever the export, the import and the cursor write do, it ends
    normally with exactly one new timer, after the interval and without
    callback argument, the timer named by [timeout] being cancelled. *)
Theorem rearm_once_past_gate env o w (key : string) :
  getSetting env = Returns (Some key) ->
  key <> EmptyString ->
  (truthy (ignoreLastSync o) = false -> getSynced_fault env = None) ->
  fst (syncHighlights env (Some o) w) = Normal tt
  /\ timers (snd (syncHighlights env (Some o) w))
     = cancel (timeout w) (timers w)
         ++ [mkTimer (next_handle w) (Finite interval) None]
  /\ next_handle (snd (syncHighlights env (Some o) w)) = S (next_handle w).
Proof.
  intros Hk Hne Hread. rewrite (open_cycle _ _ _ _ Hk Hne Hread).
  split; [apply try_block_completes |].
  match goal with
  | |- context [try_block ?e ?o ?k ?s ?x] =>
      destruct (try_block_rearms e o k s x) as (-> & -> & _)
  end.
  split; reflexivity.
Qed.

End Properties.

(** * Concrete runs *)

(** "Readwise Sync Latest" with the key at its default: the toast, and no
    timer for a next cycle. *)
Example no_key_command_leaves_no_timer :
  timers (snd (syncLatestHighlights (Book := nat) (env_no_key 0) initial))
  = []
  /\ toasts (trace (snd (syncLatestHighlights (Book := nat) (env_no_key 0)
                           initial)))
     = [msgNoKey].
Proof. split; reflexivity. Qed.

(** Two manual syncs in a row: two timers pending. *)
Example two_manual_syncs_two_timers :
  timers (run (Book := nat)
            [(env_success "key" (Some []) 0, CmdSyncLatest);
             (env_success "key" (Some []) 1, CmdSyncLatest)]
            initial)
  = [mkTimer 0 (Finite 1800000) None; mkTimer 1 (Finite 1800000) None].
Proof. reflexivity. Qed.

(** A manual sync, then its timer fires: the fired cycle throws before the
    [try] statement and the chain of automatic cycles ends. *)
Example fired_timer_ends_the_chain :
  let w := run (Book := nat)
             [(env_success "key" (Some []) 0, CmdSyncLatest);
              (env_success "key" (Some []) 1800000, TimerFires 0)]
             initial in
  timers w = []
  /\ fetch_calls (trace w) = [("key"%string, None)]
  /\ lastSync w = Some (Iso 0).
Proof. cbv zeta. repeat split; reflexivity. Qed.

(** The incremental call fails although a full one would succeed; the
    stored cursor stays.  Then a run whose clock does not go back. *)
Lemma cursor_kept_on_failure_and_nondecreasing_witness :
  lastSync
    (snd (syncHighlights (Book := nat)
            (mkEnv (Returns (Some "key"%string)) None
                   (fun _ since =>
                      match since with
                      | Some _ => Returns (Failure "auth")
                      | None => Returns (Success None)
                      end)
                   (fun _ => None) None 7)
            (Some optsSyncLatest) (world_with_cursor 3)))
  = Some (Iso 3)
  /\ nondecreasing
       (lastSync (world_with_cursor (Book := nat) 3)
          :: cursor_history
               [(env_success "key" (Some [1%nat]) 5, CmdSyncLatest);
                (env_failure "key" "auth" 7, CmdSyncAll);
                (env_success "key" None 9, TimerFires 0);
                (env_success "key" None 9, CmdSyncLatest)]
               (world_with_cursor 3)).
Proof.
  split.
  - destruct (proj1 cursor_kept_on_failure_and_nondecreasing
                (mkEnv (Book := nat) (Returns (Some "key"%string)) None
                   (fun _ since =>
                      match since with
                      | Some _ => Returns (Failure "auth")
                      | None => Returns (Success None)
                      end)
                   (fun _ => None) None 7)
                (Some optsSyncLatest) (world_with_cursor 3))
      as (evs & Hev & Hkept).
    unfold cycle_events in Hev. simpl in Hev. subst evs.
    apply Hkept. simpl. intros key since d [H | []].
    injection H as <- <-. discriminate.
  - apply (proj2 cursor_kept_on_failure_and_nondecreasing _ _ 3).
    + cbn. lia.
    + cbn. lia.
Defined.

(** Two successful manual syncs with the clock set back in between: the
    cursor goes from 7 to 5.  And a stored cursor ahead of the clock: one
    successful sync takes it from 9 to 5. *)
Lemma cursor_goes_back_with_the_clock :
  ~ nondecreasing
      (cursor_history (Book := nat)
         [(env_success "key" None 7, CmdSyncLatest);
          (env_success "key" None 5, CmdSyncLatest)]
         initial)
  /\ ~ cursor_le
         (lastSync (world_with_cursor (Book := nat) 9))
         (lastSync (snd (syncLatestHighlights (Book := nat)
                           (env_success "key" None 5)
                           (world_with_cursor 9)))).
Proof.
  split.
  - cbn. intros [H _]. lia.
  - cbn. lia.
Qed.

Lemma fetch_window_witness :
  exists evs,
    cycle_events (Book := nat) (env_success "key" None 9)
      (Some optsSyncLatest) (world_with_cursor 3) evs
    /\ fetch_calls evs = [("key"%string, Some (Iso 3))].
Proof.
  destruct (fetch_window (Book := nat) (env_success "key" None 9)
              optsSyncLatest (world_with_cursor 3) "key"%string)
    as (evs & Hev & Hcur & _).
  - reflexivity.
  - discriminate.
  - reflexivity.
  - exists evs. split; [exact Hev |].
    apply Hcur; reflexivity.
Defined.

Lemma empty_success_advances_witness :
  exists evs,
    cycle_events (Book := nat) (env_success "key" (Some []) 9)
      (Some optsEmpty) (world_with_cursor 3) evs
    /\ imports evs = []
    /\ cursor_writes evs = [Iso 9].
Proof.
  destruct (empty_success_advances (Book := nat)
              (env_success "key" (Some []) 9) optsEmpty
              (world_with_cursor 3) "key"%string (Some []))
    as (evs & Hev & Himp & _ & Hwr & _).
  - reflexivity.
  - discriminate.
  - reflexivity.
  - reflexivity.
  - right. reflexivity.
  - exists evs. repeat split; assumption.
Defined.

Lemma nonempty_success_order_witness :
  lastSync (snd (syncHighlights (Book := nat)
                   (env_success "key" (Some [1%nat; 2%nat]) 9)
                   (Some optsSyncLatest) (world_with_cursor 3)))
  = Some (Iso 9).
Proof.
  apply (nonempty_success_order (Book := nat)
           (env_success "key" (Some [1%nat; 2%nat]) 9) optsSyncLatest
           (world_with_cursor 3) "key"%string 1%nat [2%nat]);
    solve [reflexivity | discriminate].
Defined.

Lemma startup_policy_witness :
  scheduled
    (trace (snd (onActivate (Book := nat)
                   (restart_after 3 (10 * 60 * 1000)
                      (env_success "key" None 9))
                   (world_with_cursor 3))))
  = [Finite (20 * 60 * 1000)].
Proof.
  apply (proj2 (proj2 (proj2
           (startup_policy (Book := nat)
              (restart_after 3 (10 * 60 * 1000) (env_success "key" None 9))
              (world_with_cursor 3) eq_refl))) 3);
    reflexivity.
Defined.

Lemma failure_toasts_bypass_notify_witness :
  (exists evs,
      cycle_events (Book := nat) (env_no_key 0) (Some optsEmpty) initial evs
      /\ toasts evs = [msgNoKey])
  /\ (exists evs,
      cycle_events (Book := nat) (env_failure "key" "auth" 0)
        (Some optsEmpty) initial evs
      /\ toasts evs = [msgInvalidKey]).
Proof.
  split.
  - apply (proj1 failure_toasts_bypass_notify (env_no_key 0)
             (Some optsEmpty) initial (Some EmptyString));
      reflexivity.
  - destruct (proj2 failure_toasts_bypass_notify
                (env_failure (Book := nat) "key" "auth" 0) optsEmpty initial
                "key"%string eq_refl)
      as (evs & Hev & Hauth & _).
    + discriminate.
    + reflexivity.
    + exists evs. split; [exact Hev |].
      apply Hauth. reflexivity.
Defined.

Lemma timer_fired_cycle_faults_witness :
  exists msg,
    fst (fire (Book := nat) (env_success "key" None 9) 0
           (snd (syncLatestHighlights (env_success "key" None 3) initial)))
    = Thrown (TypeError msg).
Proof.
  destruct (proj2 (proj2 timer_fired_cycle_faults)
              (env_success (Book := nat) "key" None 9)
              (snd (syncLatestHighlights (env_success "key" None 3) initial))
              0%nat (mkTimer 0 (Finite interval) None) "key"%string)
    as [msg Hrun].
  - reflexivity.
  - reflexivity.
  - reflexivity.
  - discriminate.
  - exists msg. rewrite Hrun. reflexivity.
Defined.

(** ** Concrete runs for the further properties *)

Lemma fired_timer_is_inert_witness :
  timers (snd (fire (Book := nat) (env_failure "key" "auth" 9) 0
                 (snd (syncLatestHighlights (env_success "key" None 3)
                         initial))))
  = [].
Proof.
  destruct (fired_timer_is_inert (Book := nat) (env_failure "key" "auth" 9)
              (snd (syncLatestHighlights (env_success "key" None 3) initial))
              0%nat (mkTimer 0 (Finite interval) None))
    as (c & evs & Hrun & _).
  - reflexivity.
  - reflexivity.
  - rewrite Hrun. reflexivity.
Defined.

Lemma background_cycles_never_sync_witness :
  (List.length
     (fetch_calls
        (trace (run (Book := nat)
                  [(env_success "key" None 3, CmdSyncLatest);
                   (env_success "key" None 5, TimerFires 0%nat);
                   (env_success "key" None 7, TimerFires 1%nat)]
                  initial)))
   <= 1)%nat.
Proof.
  apply (proj1 (background_cycles_never_sync (Book := nat)
                  [(env_success "key" None 3, CmdSyncLatest);
                   (env_success "key" None 5, TimerFires 0%nat);
                   (env_success "key" None 7, TimerFires 1%nat)]
                  initial (fun tm (H : In tm []) => match H with end))).
Defined.

Lemma timers_leave_only_by_firing_witness :
  In (mkTimer 0 (Finite interval) None)
     (timers (run (Book := nat)
                [(env_success "key" None 5, CmdSyncAll);
                 (env_failure "key" "auth" 7, CmdSyncLatest)]
                (snd (syncLatestHighlights (env_success "key" None 3)
                        initial)))).
Proof.
  apply (timers_leave_only_by_firing (Book := nat)
           [(env_success "key" None 5, CmdSyncAll);
            (env_failure "key" "auth" 7, CmdSyncLatest)]
           (snd (syncLatestHighlights (env_success "key" None 3) initial))
           (mkTimer 0 (Finite interval) None)).
  - reflexivity.
  - left. reflexivity.
  - intros env h' [H | [H | []]]; discriminate H.
Defined.

Lemma startup_with_text_cursor_witness :
  timers (snd (onActivate (Book := nat)
                 (activation_at 5 5 (env_no_key 0))
                 (world_with_text "soon")))
  = [mkTimer 0 NaN None].
Proof.
  rewrite (proj2 (startup_with_text_cursor (Book := nat)
                    (activation_at 5 5 (env_no_key 0))
                    (world_with_text "soon") eq_refl)
             _ _ eq_refl).
  reflexivity.
Defined.

Lemma startup_delay_bounds_witness :
  exists z,
    timers (snd (onActivate (Book := nat)
                   (restart_after 3 (10 * 60 * 1000) (env_no_key 0))
                   (world_with_cursor 3)))
    = [mkTimer 0 (Finite z) None]
    /\ z <= interval.
Proof.
  destruct (startup_delay_bounds (Book := nat)
              (restart_after 3 (10 * 60 * 1000) (env_no_key 0))
              (world_with_cursor 3) 3)
    as (z & Ht & Hle & _).
  - reflexivity.
  - reflexivity.
  - cbn. lia.
  - exists z. split; [exact Ht |]. apply Hle. cbn. lia.
Defined.

Lemma first_activation_syncs_witness :
  lastSync (snd (onActivate (Book := nat)
                   (activation_at 9 9
                      (env_success "key" (Some [1%nat; 2%nat]) 9))
                   initial))
  = Some (Iso 9).
Proof.
  apply (first_activation_syncs (Book := nat)
           (activation_at 9 9 (env_success "key" (Some [1%nat; 2%nat]) 9))
           initial "key"%string (Some [1%nat; 2%nat]));
    solve [reflexivity | discriminate | intros; reflexivity].
Defined.

Lemma notify_only_changes_toasts_witness :
  without_toasts
    (trace (snd (syncHighlights (Book := nat)
                   (env_success "key" (Some [1%nat]) 9)
                   (Some optsSyncLatest) (world_with_cursor 3))))
  = without_toasts
      (trace (snd (syncHighlights (Book := nat)
                     (env_success "key" (Some [1%nat]) 9)
                     (Some optsEmpty) (world_with_cursor 3)))).
Proof.
  apply (notify_only_changes_toasts (Book := nat)
           (env_success "key" (Some [1%nat]) 9) optsSyncLatest optsEmpty
           (world_with_cursor 3) eq_refl).
Defined.

Lemma rearm_once_past_gate_witness :
  timers (snd (syncHighlights (Book := nat) (env_failure "key" "auth" 9)
                 (Some optsEmpty) (world_with_cursor 3)))
  = [mkTimer 0 (Finite interval) None].
Proof.
  apply (rearm_once_past_gate (Book := nat) (env_failure "key" "auth" 9)
           optsEmpty (world_with_cursor 3) "key"%string);
    solve [reflexivity | discriminate].
Defined.

Lemma activation_outcome_witness :
  fst (onActivate (Book := nat)
         (mkActivation None (Some (Rejection "host")) None
            (activation_at 5 5 (env_no_key 0)))
         initial)
  = Thrown (Rejection "host").
Proof.
  destruct (proj1 (proj2 (activation_outcome (Book := nat)
                            (mkActivation None (Some (Rejection "host")) None
                               (activation_at 5 5 (env_no_key 0)))
                            initial))
              (Rejection "host") eq_refl)
    as (n & _ & Hrun).
  rewrite Hrun. reflexivity.
Defined.
